(** * A task-tracking API over an embedded relational store

    Shallow embedding of [main.py]: the [Task] schema and its request
    shapes, the five CRUD handlers running in a per-request ORM session,
    and the keyword classifier.

    Modelling conventions.
    - Python [int] is [Z]; [str] is [string], the text in UTF-8;
      [Optional[T]] is [option T].
    - The handlers are modelled on integers the SQLite driver can bind.
      The driver binds a Python [int] as a 64-bit signed integer and
      raises [OverflowError] for any other; [answer] puts this check
      before the handler, where the code has it, and is the behaviour of
      a request for every integer.
    - The database is the SQLite file the engine is created on.  Its one
      table, [task], is the list of its rows in rowid order, the order in
      which a [SELECT] without [ORDER BY] scans it.  The columns carry the
      constraints the schema declares: [id] is the integer primary key,
      [title: str] and [is_completed: bool] are NOT NULL,
      [description: Optional[str]] is nullable.
    - A Python object of class [Task] lives in the session's object heap
      and is handled by reference, so that the flush at [commit] and
      [refresh] mutate the object the handler holds.  Python checks no
      attribute type on assignment, hence every attribute of the
      in-memory object may hold [None]; the column constraints are
      checked when the object is flushed.
    - A request body is a JSON object over the three task attributes,
      each one absent, [null], or a value of the attribute's type.  A
      value of another JSON type, which the framework rejects with the
      validation error, is not among the bodies modelled. *)

From Stdlib Require Import ZArith Lia Bool.
From stdpp Require Import base option list sorting strings.

Local Open Scope Z_scope.

(** ** Data models *)

(** [class Task(TaskBase, table=True)]: the in-memory object. *)
Record Task := mkTask {
  id : option Z;
  title : option string;
  description : option string;
  is_completed : option bool;
}.

(** [class TaskCreate(TaskBase)]: a validated creation shape. *)
Record TaskCreate := mkTaskCreate {
  create_title : string;
  create_description : option string;
  create_is_completed : bool;
}.

(** The attributes a patch can name. *)
Inductive attr := Title | Description | IsCompleted.

#[global] Instance attr_eq_dec : EqDecision attr.
Proof. solve_decision. Defined.

(** [class TaskUpdate(SQLModel)]: every attribute optional with default
    [None]; [model_fields_set] records the attributes the request body
    gave explicitly (with [null] or with a value). *)
Record TaskUpdate := mkTaskUpdate {
  update_title : option string;
  update_description : option string;
  update_is_completed : option bool;
  model_fields_set : list attr;
}.

(** An item of the dictionary a patch is dumped to: the key with the
    value the patch holds for it, [None] or a value of the key's type. *)
Inductive item :=
| title_item (v : option string)
| description_item (v : option string)
| is_completed_item (v : option bool).

(** One row of the table [task]. *)
Record Row := mkRow {
  rowid : Z;
  row_title : string;
  row_description : option string;
  row_is_completed : bool;
}.

(** ** Request bodies and their validation *)

Inductive field (A : Type) :=
| Absent
| Null
| Value (a : A).
Arguments Absent {A}.
Arguments Null {A}.
Arguments Value {A} a.

Record Body := mkBody {
  body_title : field string;
  body_description : field string;
  body_is_completed : field bool;
}.

Inductive Error :=
| HTTPException (status_code : Z) (detail : string)
| RequestValidationError
| IntegrityError
| InvalidRequestError
| OverflowError.

(** The status class the framework answers with. *)
Definition status (e : Error) : Z :=
  match e with
  | HTTPException c _ => c
  | RequestValidationError => 422
  | IntegrityError | InvalidRequestError | OverflowError => 500
  end.

Definition NotFound : Error := HTTPException 404 "Task not found".

(** A required attribute of type [T]: [title: str]. *)
Definition required {A} (f : field A) : Error + A :=
  match f with
  | Value a => inr a
  | Absent | Null => inl RequestValidationError
  end.

(** An attribute of type [T] with a default: [is_completed: bool = False]. *)
Definition with_default {A} (d : A) (f : field A) : Error + A :=
  match f with
  | Absent => inr d
  | Value a => inr a
  | Null => inl RequestValidationError
  end.

(** An attribute of type [Optional[T]] with default [None]. *)
Definition optional {A} (f : field A) : option A :=
  match f with
  | Value a => Some a
  | Absent | Null => None
  end.

Definition is_set {A} (f : field A) : bool :=
  match f with
  | Absent => false
  | Null | Value _ => true
  end.

(** The framework validates the body of [POST /tasks/] against [TaskCreate]. *)
Definition TaskCreate_validate (b : Body) : Error + TaskCreate :=
  match required (body_title b), with_default false (body_is_completed b) with
  | inr t, inr c => inr (mkTaskCreate t (optional (body_description b)) c)
  | _, _ => inl RequestValidationError
  end.

(** The framework validates the body of [PATCH /tasks/{task_id}] against
    [TaskUpdate]; no attribute is required and each accepts [null]. *)
Definition TaskUpdate_validate (b : Body) : TaskUpdate :=
  mkTaskUpdate
    (optional (body_title b))
    (optional (body_description b))
    (optional (body_is_completed b))
    ((if is_set (body_title b) then [Title] else []) ++
     (if is_set (body_description b) then [Description] else []) ++
     (if is_set (body_is_completed b) then [IsCompleted] else [])).

(** [Task.model_validate(task)]: a fresh object, [id] left at its default. *)
Definition Task_model_validate (task : TaskCreate) : Task :=
  mkTask None (Some (create_title task)) (create_description task)
         (Some (create_is_completed task)).

Definition getattr_update (u : TaskUpdate) (a : attr) : item :=
  match a with
  | Title => title_item (update_title u)
  | Description => description_item (update_description u)
  | IsCompleted => is_completed_item (update_is_completed u)
  end.

(** [task_update.model_dump(exclude_unset=True)]: the dictionary of the
    attributes that were set, in declaration order. *)
Definition model_dump_exclude_unset (u : TaskUpdate) : list item :=
  map (getattr_update u)
      (filter (fun a => a ∈ model_fields_set u) [Title; Description; IsCompleted]).

(** [setattr(self, key, value)] on a task object. *)
Definition setattr (o : Task) (kv : item) : Task :=
  match kv with
  | title_item v => mkTask (id o) v (description o) (is_completed o)
  | description_item v => mkTask (id o) (title o) v (is_completed o)
  | is_completed_item v => mkTask (id o) (title o) (description o) v
  end.

(** [db_task.sqlmodel_update(task_data)]: one [setattr] per dictionary item. *)
Definition sqlmodel_update (o : Task) (task_data : list item) : Task :=
  fold_left setattr task_data o.

(** ** The table [task] *)

(** [SELECT ... WHERE id = i]. *)
Definition select_where_id (i : Z) (t : list Row) : option Row :=
  find (fun r => rowid r =? i) t.

(** [UPDATE task SET ... WHERE id = rowid r]. *)
Definition update_where_id (r : Row) (t : list Row) : list Row :=
  map (fun r' => if rowid r' =? rowid r then r else r') t.

(** [DELETE FROM task WHERE id = i]. *)
Definition delete_where_id (i : Z) (t : list Row) : list Row :=
  filter (fun r => rowid r ≠ i) t.

Fixpoint max_rowid (t : list Row) : option Z :=
  match t with
  | [] => None
  | r :: t' =>
      Some (match max_rowid t' with
            | Some m => Z.max (rowid r) m
            | None => rowid r
            end)
  end.

(** The key the engine gives a row inserted without one: one more than
    the largest key in use, 1 on an empty table. *)
Definition next_rowid (t : list Row) : Z :=
  match max_rowid t with
  | Some m => m + 1
  | None => 1
  end.

(** [INSERT INTO task ...]: the row takes its place in rowid order. *)
Fixpoint insert_row (r : Row) (t : list Row) : list Row :=
  match t with
  | [] => [r]
  | r' :: t' => if rowid r <? rowid r' then r :: t else r' :: insert_row r t'
  end.

(** [OFFSET n]: a negative offset counts as zero. *)
Definition sql_offset {A} (n : Z) (l : list A) : list A :=
  drop (Z.to_nat n) l.

(** [LIMIT n]: a negative limit is no limit. *)
Definition sql_limit {A} (n : Z) (l : list A) : list A :=
  if n <? 0 then l else take (Z.to_nat n) l.

(** The object a row is loaded into. *)
Definition load (r : Row) : Task :=
  mkTask (Some (rowid r)) (Some (row_title r)) (row_description r)
         (Some (row_is_completed r)).

(** The row an object is written to under key [i]; [None] when a NOT NULL
    column would receive [None]. *)
Definition to_row (i : Z) (o : Task) : option Row :=
  match title o, is_completed o with
  | Some t, Some c => Some (mkRow i t (description o) c)
  | _, _ => None
  end.

(** ** The session *)

Definition ref := nat.

Record Session := mkSession {
  table : list Row;        (* the committed rows *)
  heap : list Task;        (* the objects of the request, by reference *)
  new : list ref;          (* objects added, to be inserted at the next flush *)
  persistent : list ref;   (* objects loaded from a row, or flushed to one *)
  deleted : list ref;      (* objects marked for deletion *)
}.

(** [Session(engine)]. *)
Definition Session_open (db : list Row) : Session :=
  mkSession db [] [] [] [].

(** A handler runs in a session; an exception ends it and keeps the
    session as it was when raised. *)
Definition Handler (A : Type) : Type := Session -> (Error + A) * Session.

Definition ret {A} (a : A) : Handler A := fun s => (inr a, s).

Definition raise {A} (e : Error) : Handler A := fun s => (inl e, s).

Definition bind {A B} (m : Handler A) (k : A -> Handler B) : Handler B :=
  fun s =>
    match m s with
    | (inl e, s') => (inl e, s')
    | (inr a, s') => k a s'
    end.

Declare Scope handler_scope.
Delimit Scope handler_scope with handler.
Notation "x <- m ;; k" := (bind m (fun x => k))
  (at level 100, m at next level, right associativity) : handler_scope.
Notation "m ;; k" := (bind m (fun _ => k))
  (at level 100, right associativity) : handler_scope.
Local Open Scope handler_scope.

(** A new Python object; the handler holds its reference. *)
Definition new_object (o : Task) : Handler ref :=
  fun s =>
    (inr (length (heap s)),
     mkSession (table s) (heap s ++ [o]) (new s) (persistent s) (deleted s)).

(** Reading the attributes of an object, as the framework does when it
    serialises what the handler returned. *)
Definition return_object (x : ref) : Handler Task :=
  fun s =>
    match heap s !! x with
    | Some o => (inr o, s)
    | None => (inl InvalidRequestError, s)
    end.

Fixpoint return_objects (xs : list ref) : Handler (list Task) :=
  match xs with
  | [] => ret []
  | x :: xs' => o <- return_object x;; os <- return_objects xs';; ret (o :: os)
  end.

(** Loading a row: a new object, persistent in the session. *)
Definition load_object (r : Row) : Handler ref :=
  fun s =>
    (inr (length (heap s)),
     mkSession (table s) (heap s ++ [load r]) (new s)
               (persistent s ++ [length (heap s)]) (deleted s)).

Fixpoint load_objects (rs : list Row) : Handler (list ref) :=
  match rs with
  | [] => ret []
  | r :: rs' => x <- load_object r;; xs <- load_objects rs';; ret (x :: xs)
  end.

(** [session.get(Task, task_id)], with a key the driver can bind; any
    other key ends the request before the lookup, see [answer]. *)
Definition session_get (task_id : Z) : Handler (option ref) :=
  fun s =>
    match select_where_id task_id (table s) with
    | Some r => (x <- load_object r;; ret (Some x)) s
    | None => (inr None, s)
    end.

(** [session.exec(select(Task).offset(offset).limit(limit)).all()], with
    an offset and a limit the driver can bind; see [answer] for the others. *)
Definition session_exec_select (offset limit : Z) : Handler (list ref) :=
  fun s => load_objects (sql_limit limit (sql_offset offset (table s))) s.

(** [db_task.sqlmodel_update(task_data)] on the object behind a reference. *)
Definition object_sqlmodel_update (x : ref) (task_data : list item) : Handler unit :=
  fun s =>
    match heap s !! x with
    | Some o =>
        (inr tt,
         mkSession (table s) (<[x := sqlmodel_update o task_data]> (heap s))
                   (new s) (persistent s) (deleted s))
    | None => (inl InvalidRequestError, s)
    end.

(** [session.add(x)]: a persistent object is in the session already. *)
Definition session_add (x : ref) : Handler unit :=
  fun s =>
    (inr tt,
     if bool_decide (x ∈ persistent s) then s
     else mkSession (table s) (heap s) (new s ++ [x]) (persistent s) (deleted s)).

(** [session.delete(x)]. *)
Definition session_delete (x : ref) : Handler unit :=
  fun s =>
    (inr tt,
     mkSession (table s) (heap s) (new s) (persistent s) (deleted s ++ [x])).

(** *** Flush and commit *)

(** The state a flush works on: the rows of the open transaction and the
    object heap. *)
Definition flush_state : Type := list Row * list Task.

(** [UPDATE] for a persistent object. *)
Definition flush_dirty (x : ref) (st : flush_state) : Error + flush_state :=
  match st.2 !! x with
  | Some o =>
      match id o with
      | Some i =>
          match to_row i o with
          | Some r => inr (update_where_id r st.1, st.2)
          | None => inl IntegrityError
          end
      | None => inl InvalidRequestError
      end
  | None => inl InvalidRequestError
  end.

(** [INSERT] for a new object; the object receives the key of its row. *)
Definition flush_new (x : ref) (st : flush_state) : Error + flush_state :=
  match st.2 !! x with
  | Some o =>
      let i := default (next_rowid st.1) (id o) in
      if bool_decide (is_Some (select_where_id i st.1)) then inl IntegrityError
      else
        match to_row i o with
        | Some r =>
            inr (insert_row r st.1,
                 <[x := mkTask (Some i) (title o) (description o) (is_completed o)]> st.2)
        | None => inl IntegrityError
        end
  | None => inl InvalidRequestError
  end.

(** [DELETE] for an object marked for deletion. *)
Definition flush_deleted (x : ref) (st : flush_state) : Error + flush_state :=
  match st.2 !! x with
  | Some o =>
      match id o with
      | Some i => inr (delete_where_id i st.1, st.2)
      | None => inl InvalidRequestError
      end
  | None => inl InvalidRequestError
  end.

Fixpoint flush_all (f : ref -> flush_state -> Error + flush_state)
    (xs : list ref) (st : flush_state) : Error + flush_state :=
  match xs with
  | [] => inr st
  | x :: xs' =>
      match f x st with
      | inr st' => flush_all f xs' st'
      | inl e => inl e
      end
  end.

Definition and_then {A B} (m : Error + A) (k : A -> Error + B) : Error + B :=
  match m with
  | inr a => k a
  | inl e => inl e
  end.

Definition flush (s : Session) : Error + flush_state :=
  let live := filter (fun x => x ∉ deleted s) (persistent s) in
  and_then (flush_all flush_dirty live (table s, heap s)) (fun st =>
  and_then (flush_all flush_new (new s) st) (fun st =>
  flush_all flush_deleted (deleted s) st)).

(** [session.commit()]: the flush is one transaction; a failed statement
    rolls it back and the exception leaves the committed rows as they were. *)
Definition session_commit : Handler unit :=
  fun s =>
    match flush s with
    | inr st =>
        (inr tt,
         mkSession st.1 st.2 []
                   (filter (fun x => x ∉ deleted s) (persistent s) ++ new s) [])
    | inl e => (inl e, s)
    end.

(** [session.refresh(x)]: the attributes are read again from the row. *)
Definition session_refresh (x : ref) : Handler unit :=
  fun s =>
    match heap s !! x with
    | Some o =>
        match bool_decide (x ∈ persistent s), id o with
        | true, Some i =>
            match select_where_id i (table s) with
            | Some r =>
                (inr tt,
                 mkSession (table s) (<[x := load r]> (heap s)) (new s)
                           (persistent s) (deleted s))
            | None => (inl InvalidRequestError, s)
            end
        | _, _ => (inl InvalidRequestError, s)
        end
    | None => (inl InvalidRequestError, s)
    end.

(** ** The handlers *)

(** The body of [DELETE /tasks/{task_id}]: [{"ok": True}]. *)
Record Ok := mkOk { ok : bool }.

Definition create_task (task : TaskCreate) : Handler Task :=
  db_task <- new_object (Task_model_validate task);;
  session_add db_task;;
  session_commit;;
  session_refresh db_task;;
  return_object db_task.

Definition read_tasks (offset limit : Z) : Handler (list Task) :=
  tasks <- session_exec_select offset limit;;
  return_objects tasks.

Definition read_task (task_id : Z) : Handler Task :=
  task <- session_get task_id;;
  match task with
  | None => raise (HTTPException 404 "Task not found")
  | Some task => return_object task
  end.

Definition update_task (task_id : Z) (task_update : TaskUpdate) : Handler Task :=
  db_task <- session_get task_id;;
  match db_task with
  | None => raise (HTTPException 404 "Task not found")
  | Some db_task =>
      let task_data := model_dump_exclude_unset task_update in
      object_sqlmodel_update db_task task_data;;
      session_add db_task;;
      session_commit;;
      session_refresh db_task;;
      return_object db_task
  end.

Definition delete_task (task_id : Z) : Handler Ok :=
  task <- session_get task_id;;
  match task with
  | None => raise (HTTPException 404 "Task not found")
  | Some task =>
      session_delete task;;
      session_commit;;
      ret (mkOk true)
  end.

(** ** The endpoints *)

(** [get_session] gives each request a session of its own on the
    database, closed when the request ends: what was committed stays,
    anything else is dropped with the session. *)
Definition get_session {A} (h : Handler A) (db : list Row) : (Error + A) * list Row :=
  let (r, s) := h (Session_open db) in (r, table s).

(** [POST /tasks/]. *)
Definition post_tasks (body : Body) (db : list Row) : (Error + Task) * list Row :=
  match TaskCreate_validate body with
  | inr task => get_session (create_task task) db
  | inl e => (inl e, db)
  end.

(** [GET /tasks/?offset=&limit=]: [offset: int = 0],
    [limit: int = Query(default=100, le=100)]. *)
Definition get_tasks (offset limit : option Z) (db : list Row)
  : (Error + list Task) * list Row :=
  let offset := default 0 offset in
  let limit := default 100 limit in
  if limit <=? 100 then get_session (read_tasks offset limit) db
  else (inl RequestValidationError, db).

(** [GET /tasks/{task_id}]. *)
Definition get_task (task_id : Z) (db : list Row) : (Error + Task) * list Row :=
  get_session (read_task task_id) db.

(** [PATCH /tasks/{task_id}]. *)
Definition patch_task (task_id : Z) (body : Body) (db : list Row)
  : (Error + Task) * list Row :=
  get_session (update_task task_id (TaskUpdate_validate body)) db.

(** [DELETE /tasks/{task_id}]. *)
Definition delete_tasks (task_id : Z) (db : list Row) : (Error + Ok) * list Row :=
  get_session (delete_task task_id) db.

(** ** The classifier *)

(** [c.lower()] on one character: the letters A to Z go to a to z.  The
    keywords below are ASCII, and outside ASCII lowering yields no ASCII
    letter that could take part in a match of one of them, so every other
    character is left as it is. *)
Definition lower_ascii (c : Ascii.ascii) : Ascii.ascii :=
  let n := Ascii.N_of_ascii c in
  if ((65 <=? n) && (n <=? 90))%N then Ascii.ascii_of_N (n + 32) else c.

(** [text.lower()]. *)
Fixpoint lower (text : string) : string :=
  match text with
  | EmptyString => EmptyString
  | String c text' => String (lower_ascii c) (lower text')
  end.

(** [sub in text]: [sub] occurs in [text] as a substring. *)
Fixpoint contains (sub text : string) : bool :=
  String.prefix sub text ||
  match text with
  | EmptyString => false
  | String _ text' => contains sub text'
  end.

Definition simple_ai_model (text : string) : string :=
  if contains "urgent" (lower text) || contains "fail" (lower text)
     || contains "error" (lower text) then
    "Critical ðŸ”´"
  else if contains "learn" (lower text) || contains "buy" (lower text) then
    "Growth ðŸŸ¢"
  else
    "Neutral âšª".

(** The body of [POST /tasks/analyze]. *)
Record Analysis := mkAnalysis {
  analysis_description : string;
  predicted_sentiment : string;
}.

Definition analyze_task_sentiment (description : string) : Analysis :=
  let sentiment := simple_ai_model description in
  mkAnalysis description sentiment.

(** ** The service as a state machine *)

Inductive Request :=
| POST_tasks (body : Body)
| GET_tasks (offset limit : option Z)
| GET_task (task_id : Z)
| PATCH_task (task_id : Z) (body : Body)
| DELETE_task (task_id : Z).

Inductive Response :=
| task_response (o : Task)
| tasks_response (os : list Task)
| ok_response (x : Ok)
| error_response (e : Error).

Definition respond {A} (f : A -> Response) (x : (Error + A) * list Row)
  : Response * list Row :=
  (match x.1 with inr a => f a | inl e => error_response e end, x.2).

(** One request against the database: the response and the database after. *)
Definition serve (req : Request) (db : list Row) : Response * list Row :=
  match req with
  | POST_tasks body => respond task_response (post_tasks body db)
  | GET_tasks offset limit => respond tasks_response (get_tasks offset limit db)
  | GET_task task_id => respond task_response (get_task task_id db)
  | PATCH_task task_id body => respond task_response (patch_task task_id body db)
  | DELETE_task task_id => respond ok_response (delete_tasks task_id db)
  end.

(** The database after a sequence of requests. *)
Definition serve_all (reqs : list Request) (db : list Row) : list Row :=
  fold_left (fun db req => (serve req db).2) reqs db.

(** The tasks a response carries. *)
Definition tasks_of (resp : Response) : list Task :=
  match resp with
  | task_response o => [o]
  | tasks_response os => os
  | ok_response _ | error_response _ => []
  end.

(** ** The integers of the driver *)

(** The integers the SQLite driver binds to a statement: those of 64 bits,
    signed. *)
Definition int64 (n : Z) : bool := (- 2 ^ 63 <=? n) && (n <? 2 ^ 63).

(** The integers of a request that the handler binds to its first
    statement: the key of [session.get(Task, task_id)], and the offset and
    the limit of the [SELECT] of the list, which runs once the limit has
    passed [le=100].  A create binds no integer of the request. *)
Definition parameters (req : Request) : list Z :=
  match req with
  | POST_tasks _ => []
  | GET_tasks offset limit =>
      if default 100 limit <=? 100 then [default 0 offset; default 100 limit]
      else []
  | GET_task task_id | PATCH_task task_id _ | DELETE_task task_id => [task_id]
  end.

(** One request as the server answers it, for every integer.  Binding an
    integer outside the 64-bit range raises [OverflowError] in the driver;
    this is at the first statement of the handler, which nothing catches,
    so the request ends there with status 500 and the table as it was.
    With integers the driver can bind, the request is served as [serve]
    has it. *)
Definition answer (req : Request) (db : list Row) : Response * list Row :=
  if forallb int64 (parameters req) then serve req db
  else (error_response OverflowError, db).

(** ** Notions the properties are stated with *)

(** The primary keys in use. *)
Definition ids (db : list Row) : list Z := map rowid db.

(** [o] is the full shape of the row stored under its [id]. *)
Definition full_task (o : Task) (db : list Row) : Prop :=
  exists r, select_where_id (rowid r) db = Some r /\ o = load r.

(** The attributes a request body gives explicitly. *)
Definition present (a : attr) (body : Body) : bool :=
  match a with
  | Title => is_set (body_title body)
  | Description => is_set (body_description body)
  | IsCompleted => is_set (body_is_completed body)
  end.

(** The stored value of an attribute, as the item a patch would carry. *)
Definition stored (a : attr) (r : Row) : item :=
  match a with
  | Title => title_item (Some (row_title r))
  | Description => description_item (row_description r)
  | IsCompleted => is_completed_item (Some (row_is_completed r))
  end.

(** The value a request body gives for an attribute it names. *)
Definition given (a : attr) (body : Body) : item :=
  match a with
  | Title => title_item (optional (body_title body))
  | Description => description_item (optional (body_description body))
  | IsCompleted => is_completed_item (optional (body_is_completed body))
  end.

(** A body that puts [null] in no NOT NULL column. *)
Definition storable (body : Body) : bool :=
  match body_title body, body_is_completed body with
  | Null, _ | _, Null => false
  | _, _ => true
  end.

(** The text holds a keyword of the first set, whatever the case. *)
Definition critical (text : string) : bool :=
  contains "urgent" (lower text) || contains "fail" (lower text)
  || contains "error" (lower text).

(** The text holds a keyword of the second set, whatever the case. *)
Definition growth (text : string) : bool :=
  contains "learn" (lower text) || contains "buy" (lower text).

(** The three labels as the specification spells them. *)
Definition Critical : string := "Critical 🔴".
Definition Growth : string := "Growth 🟢".
Definition Neutral : string := "Neutral ⚪".



(** The rows are in ascending order of id. *)
Definition ascending (db : list Row) : Prop := StronglySorted Z.lt (ids db).

(** The row an update with [body] makes of the row [r]: a named attribute
    takes the given value, any other keeps the stored one. *)
Definition patch_row (body : Body) (r : Row) : Row :=
  mkRow (rowid r)
        (match body_title body with Value s => s | _ => row_title r end)
        (match body_description body with
         | Absent => row_description r
         | Null => None
         | Value d => Some d
         end)
        (match body_is_completed body with
         | Value c => c
         | _ => row_is_completed r
         end).

(** The text has a substring that is one of the keywords but for the case
    of its letters. *)
Definition has_keyword (kws : list string) (text : string) : Prop :=
  exists a m b, text = a +:+ m +:+ b /\ lower m ∈ kws.

(** A database with two tasks, for concrete runs. *)
Definition example_db : list Row :=
  [mkRow 1 "Buy milk" None false; mkRow 2 "Fix error" (Some "urgent") true].

(** * Properties *)

(** Closes a decidable goal on concrete data by evaluation. *)
Ltac by_evaluation := apply (bool_decide_unpack _); vm_compute; reflexivity.

(** ** The table *)

Section table.
Implicit Types (t : list Row) (r : Row) (i j : Z).

Lemma select_where_id_Some i t r :
  select_where_id i t = Some r -> r ∈ t /\ rowid r = i.
Proof.
  unfold select_where_id. induction t as [|r' t IH]; simpl; [done|].
  destruct (rowid r' =? i) eqn:E.
  - intros [= <-]. split; [left | lia].
  - intros H. destruct (IH H). split; [by right | done].
Qed.

Lemma select_where_id_None i t :
  select_where_id i t = None <-> i ∉ map rowid t.
Proof.
  unfold select_where_id. induction t as [|r' t IH]; simpl.
  - split; [intros _; apply not_elem_of_nil | done].
  - rewrite not_elem_of_cons. destruct (rowid r' =? i) eqn:E.
    + split; [done | intros [? _]; lia].
    + rewrite IH. split; [intros ?; split; [lia | done] | by intros [_ ?]].
Qed.

Lemma select_where_id_is_Some i t :
  is_Some (select_where_id i t) <-> i ∈ map rowid t.
Proof.
  rewrite <- not_eq_None_Some, select_where_id_None.
  destruct (decide (i ∈ map rowid t)); naive_solver.
Qed.

Lemma max_rowid_bound t r :
  r ∈ t -> exists m, max_rowid t = Some m /\ rowid r <= m.
Proof.
  induction t as [|r' t IH]; [by intros ?%elem_of_nil|].
  intros [->|Hin]%elem_of_cons; simpl.
  - eexists; split; [done|]. destruct (max_rowid t); lia.
  - destruct (IH Hin) as (m & -> & ?). eexists; split; [done | lia].
Qed.

Lemma next_rowid_above t r : r ∈ t -> rowid r < next_rowid t.
Proof.
  intros (m & Hm & ?)%max_rowid_bound. unfold next_rowid. rewrite Hm. lia.
Qed.

(** The key given to a new row is not in use. *)
Lemma next_rowid_fresh t : next_rowid t ∉ map rowid t.
Proof.
  intros (r & E & Hin)%list_elem_of_fmap.
  apply next_rowid_above in Hin. lia.
Qed.

Lemma select_next_rowid t : select_where_id (next_rowid t) t = None.
Proof. apply select_where_id_None, next_rowid_fresh. Qed.

Lemma insert_row_last r t :
  (forall r', r' ∈ t -> rowid r' < rowid r) -> insert_row r t = t ++ [r].
Proof.
  induction t as [|r' t IH]; simpl; [done|]. intros H.
  destruct (rowid r <? rowid r') eqn:E.
  - specialize (H r' ltac:(left)). lia.
  - rewrite IH; [done|]. intros ? ?. apply H. by right.
Qed.

Lemma select_where_id_app i t t' :
  select_where_id i (t ++ t') =
  match select_where_id i t with
  | Some r => Some r
  | None => select_where_id i t'
  end.
Proof.
  unfold select_where_id. induction t as [|r' t IH]; simpl; [done|].
  by destruct (rowid r' =? i).
Qed.

Lemma map_rowid_update r t :
  map rowid (update_where_id r t) = map rowid t.
Proof.
  unfold update_where_id. induction t as [|r' t IH]; simpl; [done|].
  rewrite IH. destruct (rowid r' =? rowid r) eqn:E; [f_equal; lia | done].
Qed.

Lemma select_update_eq r t :
  is_Some (select_where_id (rowid r) t) ->
  select_where_id (rowid r) (update_where_id r t) = Some r.
Proof.
  unfold select_where_id, update_where_id.
  induction t as [|r' t IH]; simpl; [by intros [? [=]]|].
  destruct (rowid r' =? rowid r) eqn:E; simpl.
  - by rewrite Z.eqb_refl.
  - by rewrite E.
Qed.

Lemma select_update_ne r t j :
  j <> rowid r ->
  select_where_id j (update_where_id r t) = select_where_id j t.
Proof.
  intros Hj. unfold select_where_id, update_where_id.
  induction t as [|r' t IH]; simpl; [done|].
  destruct (rowid r' =? rowid r) eqn:E; simpl.
  - destruct (rowid r =? j) eqn:E1; [lia|].
    destruct (rowid r' =? j) eqn:E2; [lia | done].
  - by rewrite IH.
Qed.

Lemma map_rowid_delete i t :
  map rowid (delete_where_id i t) = filter (fun j => j <> i) (map rowid t).
Proof.
  unfold delete_where_id. induction t as [|r' t IH]; simpl; [done|].
  rewrite !filter_cons. simpl. case_decide; simpl; by rewrite IH.
Qed.

Lemma select_delete_eq i t : select_where_id i (delete_where_id i t) = None.
Proof.
  apply select_where_id_None. rewrite map_rowid_delete.
  intros [? _]%list_elem_of_filter. done.
Qed.

Lemma select_delete_ne i j t :
  j <> i -> select_where_id j (delete_where_id i t) = select_where_id j t.
Proof.
  intros Hj. unfold select_where_id, delete_where_id.
  induction t as [|r' t IH]; simpl; [done|].
  rewrite filter_cons. case_decide; simpl.
  - by rewrite IH.
  - rewrite IH. destruct (rowid r' =? j) eqn:E; [lia | done].
Qed.
End table.

(** ** What each request computes *)

Section requests.
Implicit Types (db : list Row) (r : Row) (u : TaskUpdate).

Lemma sqlmodel_update_id o d : id (sqlmodel_update o d) = id o.
Proof.
  unfold sqlmodel_update. revert o.
  induction d as [|kv d IH]; intros o; simpl; [done|].
  rewrite IH. by destruct kv.
Qed.

Lemma read_task_run task_id db :
  get_session (read_task task_id) db =
  (match select_where_id task_id db with
   | Some r => inr (load r)
   | None => inl NotFound
   end, db).
Proof.
  unfold get_session, read_task, bind, session_get, Session_open; simpl.
  by destruct (select_where_id task_id db).
Qed.

Lemma delete_task_run task_id db :
  get_session (delete_task task_id) db =
  match select_where_id task_id db with
  | Some r => (inr (mkOk true), delete_where_id task_id db)
  | None => (inl NotFound, db)
  end.
Proof.
  unfold get_session, delete_task, bind, session_get, Session_open; simpl.
  destruct (select_where_id task_id db) as [r|] eqn:E; [|done].
  apply select_where_id_Some in E as [_ <-]. done.
Qed.

Lemma update_task_run task_id u db :
  get_session (update_task task_id u) db =
  match select_where_id task_id db with
  | Some r =>
      match to_row task_id
              (sqlmodel_update (load r) (model_dump_exclude_unset u)) with
      | Some r' => (inr (load r'), update_where_id r' db)
      | None => (inl IntegrityError, db)
      end
  | None => (inl NotFound, db)
  end.
Proof.
  unfold get_session, update_task, bind, session_get, Session_open; simpl.
  destruct (select_where_id task_id db) as [r|] eqn:E; [|done].
  pose proof E as [_ Hid]%select_where_id_Some. simpl.
  pose proof (sqlmodel_update_id (load r) (model_dump_exclude_unset u)) as Hi.
  destruct (sqlmodel_update _ _) as [oi [ot|] od [oc|]];
    simpl in Hi; subst oi; simpl; rewrite ?Hid; try done.
  unfold session_refresh; simpl.
  change task_id with (rowid (mkRow task_id ot od oc)) at 1.
  rewrite select_update_eq; [done|]. simpl. rewrite E. by eexists.
Qed.

Lemma create_task_run task db :
  get_session (create_task task) db =
  let r := mkRow (next_rowid db) (create_title task)
                 (create_description task) (create_is_completed task) in
  (inr (load r), db ++ [r]).
Proof.
  unfold get_session, create_task, bind, Session_open; simpl.
  unfold session_commit, flush; simpl.
  unfold flush_new; simpl.
  rewrite select_next_rowid; simpl.
  rewrite insert_row_last by (intros ? ?; by apply next_rowid_above).
  unfold session_refresh; simpl.
  rewrite select_where_id_app, select_next_rowid; simpl.
  by rewrite Z.eqb_refl.
Qed.
Lemma load_objects_run rs s :
  load_objects rs s =
  (inr (seq (length (heap s)) (length rs)),
   mkSession (table s) (heap s ++ map load rs) (new s)
             (persistent s ++ seq (length (heap s)) (length rs)) (deleted s)).
Proof.
  revert s. induction rs as [|r rs IH]; intros s; simpl.
  - unfold ret. rewrite !app_nil_r. by destruct s.
  - unfold bind, load_object. rewrite IH; simpl.
    rewrite length_app, Nat.add_1_r, <- !app_assoc. done.
Qed.

Lemma return_objects_run s h os :
  heap s = h ++ os -> return_objects (seq (length h) (length os)) s = (inr os, s).
Proof.
  revert h. induction os as [|o os IH]; intros h Hs; simpl; [done|].
  unfold bind, return_object. rewrite Hs, list_lookup_middle by done.
  replace (S (length h)) with (length (h ++ [o]))
    by (rewrite length_app; simpl; lia).
  rewrite IH; [done|]. by rewrite Hs, <- app_assoc.
Qed.

Lemma read_tasks_run offset limit db :
  get_session (read_tasks offset limit) db =
  (inr (map load (sql_limit limit (sql_offset offset db))), db).
Proof.
  unfold get_session, read_tasks, bind, session_exec_select.
  rewrite load_objects_run; simpl.
  rewrite <- (length_map load).
  by rewrite (return_objects_run _ []).
Qed.
End requests.

(** ** Partial update *)

Section update.
Implicit Types (db : list Row) (r : Row) (body : Body).

Lemma model_dump_validate body :
  model_dump_exclude_unset (TaskUpdate_validate body) =
  (if present Title body then [given Title body] else []) ++
  (if present Description body then [given Description body] else []) ++
  (if present IsCompleted body then [given IsCompleted body] else []).
Proof. by destruct body as [[| |?] [| |?] [| |?]]. Qed.

Lemma patch_task_run task_id body db :
  patch_task task_id body db =
  match select_where_id task_id db with
  | Some r =>
      match to_row task_id
              (sqlmodel_update (load r)
                 (model_dump_exclude_unset (TaskUpdate_validate body))) with
      | Some r' => (inr (load r'), update_where_id r' db)
      | None => (inl IntegrityError, db)
      end
  | None => (inl NotFound, db)
  end.
Proof. apply update_task_run. Qed.

(** Writing a row under a key in use makes it the row of that key and
    touches no other key. *)
Lemma update_where_id_spec task_id db r r' :
  select_where_id task_id db = Some r -> rowid r' = task_id ->
  select_where_id task_id (update_where_id r' db) = Some r' /\
  (forall j, j <> task_id ->
     select_where_id j (update_where_id r' db) = select_where_id j db) /\
  ids (update_where_id r' db) = ids db.
Proof.
  intros E <-. split_and!.
  - apply select_update_eq. by rewrite E.
  - intros j Hj. by apply select_update_ne.
  - apply map_rowid_update.
Qed.

Lemma to_row_rowid i o r' : to_row i o = Some r' -> rowid r' = i.
Proof. unfold to_row. repeat case_match; try done. by intros [= <-]. Qed.

(** The flush of a patched object fails exactly when the body puts a
    null in a NOT NULL column. *)
Lemma to_row_patched i body r :
  is_Some (to_row i (sqlmodel_update (load r)
                       (model_dump_exclude_unset (TaskUpdate_validate body))))
  <-> storable body = true.
Proof.
  rewrite model_dump_validate.
  destruct body as [[| |bt] [| |bd] [| |bc]]; simpl;
    (split; [try done; by intros [? [=]] | try done; by eexists]).
Qed.

(** C1. For an existing task id, the update overwrites only the
    attributes the request body names: an attribute absent from the body
    keeps its stored value, an attribute the body names holds the given
    value once the call has returned, and no other row is touched.  The
    task the call returns is the full shape of the updated row; it does
    return whenever the body puts no null in a NOT NULL column, and in
    particular patching only [is_completed] to true returns the task
    with its title and description as they were. *)
Theorem update_task_overwrites_only_present task_id body db r :
  select_where_id task_id db = Some r ->
  let resp := (patch_task task_id body db).1 in
  let db' := (patch_task task_id body db).2 in
  exists r',
    select_where_id task_id db' = Some r' /\
    (forall a, present a body = false -> stored a r' = stored a r) /\
    (forall a o, resp = inr o -> present a body = true ->
       stored a r' = given a body) /\
    (forall j, j <> task_id -> select_where_id j db' = select_where_id j db) /\
    ids db' = ids db /\
    (forall o, resp = inr o -> o = load r') /\
    (storable body = true -> resp = inr (load r')) /\
    (body = mkBody Absent Absent (Value true) ->
     resp = inr (mkTask (Some task_id) (Some (row_title r))
                        (row_description r) (Some true))).
Proof.
  intros E. rewrite patch_task_run, E, model_dump_validate.
  pose proof E as [_ Hid]%select_where_id_Some.
  destruct body as [[| |bt] [| |bd] [| |bc]]; simpl;
    lazymatch goal with
    | |- context [update_where_id ?r' db] =>
        destruct (update_where_id_spec task_id db r r' E eq_refl)
          as (Hs & Hne & Hids);
        exists r'; split_and!; try done;
        try (intros [] ?; by simpl);
        try (intros [] ? ? ?; by simpl);
        try (by intros ? [= <-]);
        try (by intros [= ->])
    | |- _ =>
        exists r; split_and!; try done;
        try (intros [] ?; by simpl)
    end.
Qed.
Lemma update_task_overwrites_only_present_witness :
  (patch_task 1 (mkBody Absent Absent (Value true)) example_db).1 =
  inr (mkTask (Some 1) (Some "Buy milk") None (Some true)).
Proof.
  destruct (update_task_overwrites_only_present
              1 (mkBody Absent Absent (Value true)) example_db
              (mkRow 1 "Buy milk" None false) eq_refl)
    as (r' & _ & _ & _ & _ & _ & _ & _ & H).
  exact (H eq_refl).
Defined.
End update.

(** ** Lookups that find no row *)

Section not_found.
Implicit Types (db : list Row) (body : Body).

Lemma not_stored task_id db :
  task_id ∉ ids db -> select_where_id task_id db = None.
Proof. apply select_where_id_None. Qed.

Lemma answer_bound task_id (req : Request) db :
  parameters req = [task_id] -> int64 task_id = true ->
  answer req db = serve req db.
Proof. intros Hp Hi. unfold answer. by rewrite Hp; simpl; rewrite Hi. Qed.

(** C3, as stated, fails: 2^63 is an id with no stored row, and
    get-by-id, update and delete answer it with a server error, status
    500, not with the not-found error. *)
Lemma out_of_range_id_is_server_error :
  (2 ^ 63 ∉ ids example_db) /\
  answer (GET_task (2 ^ 63)) example_db =
    (error_response OverflowError, example_db) /\
  answer (PATCH_task (2 ^ 63) (mkBody Absent Absent (Value true))) example_db =
    (error_response OverflowError, example_db) /\
  answer (DELETE_task (2 ^ 63)) example_db =
    (error_response OverflowError, example_db) /\
  status OverflowError = 500.
Proof. split_and!; [by_evaluation | reflexivity..]. Qed.

(** C3, amended. For an id within the 64-bit signed range with no stored
    row, get-by-id, update and delete each fail with the 404 error whose
    detail is "Task not found", and leave the table as it was.  For an id
    with a stored row, get-by-id returns the full task, delete returns
    [{ok: true}], and update, when it returns, returns the full task. *)
Theorem not_found_or_full_task task_id body db :
  int64 task_id = true ->
  (task_id ∉ ids db ->
   answer (GET_task task_id) db =
     (error_response (HTTPException 404 "Task not found"), db) /\
   answer (PATCH_task task_id body) db =
     (error_response (HTTPException 404 "Task not found"), db) /\
   answer (DELETE_task task_id) db =
     (error_response (HTTPException 404 "Task not found"), db) /\
   status (HTTPException 404 "Task not found") = 404) /\
  (task_id ∈ ids db ->
   (exists o, answer (GET_task task_id) db = (task_response o, db) /\
              id o = Some task_id /\ full_task o db) /\
   (answer (DELETE_task task_id) db).1 = ok_response (mkOk true) /\
   (forall o, (answer (PATCH_task task_id body) db).1 = task_response o ->
              id o = Some task_id /\
              full_task o (answer (PATCH_task task_id body) db).2) /\
   (storable body = true ->
    exists o, (answer (PATCH_task task_id body) db).1 = task_response o)).
Proof.
  intros Hi. rewrite !(answer_bound task_id) by done.
  unfold serve, respond, get_task, delete_tasks.
  rewrite read_task_run, delete_task_run, patch_task_run. split.
  - intros ->%not_stored. done.
  - intros [r E]%select_where_id_is_Some. rewrite E.
    pose proof E as [_ Hid]%select_where_id_Some.
    pose proof (to_row_patched task_id body r) as Hst.
    destruct (to_row task_id _) as [r'|] eqn:Er; simpl.
    + pose proof Er as Hid'%to_row_rowid.
      destruct (update_where_id_spec task_id db r r' E Hid') as (Hs & _).
      split_and!.
      * exists (load r). split_and!; [done | by rewrite <- Hid |].
        exists r. by rewrite Hid.
      * done.
      * intros o [= <-]. split; [by rewrite <- Hid'|].
        exists r'. by rewrite Hid'.
      * by eexists.
    + split_and!.
      * exists (load r). split_and!; [done | by rewrite <- Hid |].
        exists r. by rewrite Hid.
      * done.
      * done.
      * intros Hb. by apply Hst in Hb as [? [=]].
Qed.

Lemma not_found_or_full_task_witness :
  answer (GET_task 7) example_db =
    (error_response (HTTPException 404 "Task not found"), example_db) /\
  (answer (DELETE_task 2) example_db).1 = ok_response (mkOk true).
Proof.
  split.
  - apply (not_found_or_full_task 7 (mkBody Absent Absent Absent) example_db);
      [reflexivity | by_evaluation].
  - apply (not_found_or_full_task 2 (mkBody Absent Absent Absent) example_db);
      [reflexivity | by_evaluation].
Defined.

(** C10. When get-by-id, update or delete fails with the not-found
    error, the table after the call is the table before it. *)
Theorem not_found_leaves_table task_id body db :
  ((get_task task_id db).1 = inl NotFound -> (get_task task_id db).2 = db) /\
  ((patch_task task_id body db).1 = inl NotFound ->
   (patch_task task_id body db).2 = db) /\
  ((delete_tasks task_id db).1 = inl NotFound ->
   (delete_tasks task_id db).2 = db).
Proof.
  unfold get_task, delete_tasks.
  rewrite read_task_run, delete_task_run, patch_task_run.
  destruct (select_where_id task_id db) as [r|]; [|done].
  split_and!; [done | | done].
  by destruct (to_row task_id _).
Qed.

Lemma not_found_leaves_table_witness :
  (get_task 7 example_db).2 = example_db /\
  (patch_task 7 (mkBody Null Absent Absent) example_db).2 = example_db /\
  (delete_tasks 7 example_db).2 = example_db.
Proof.
  destruct (not_found_leaves_table 7 (mkBody Null Absent Absent) example_db)
    as (Hget & Hpatch & Hdelete).
  split_and!; [apply Hget | apply Hpatch | apply Hdelete]; reflexivity.
Defined.

(** C7. Deleting a stored task succeeds; after it, get-by-id on the same
    id fails with the not-found error, and so does a second delete. *)
Theorem delete_then_not_found task_id db :
  task_id ∈ ids db ->
  let db' := (delete_tasks task_id db).2 in
  (delete_tasks task_id db).1 = inr (mkOk true) /\
  get_task task_id db' = (inl NotFound, db') /\
  delete_tasks task_id db' = (inl NotFound, db').
Proof.
  intros [r E]%select_where_id_is_Some.
  unfold get_task, delete_tasks.
  rewrite delete_task_run, E; simpl.
  by rewrite read_task_run, delete_task_run, select_delete_eq.
Qed.

Lemma delete_then_not_found_witness :
  (delete_tasks 1 example_db).1 = inr (mkOk true) /\
  get_task 1 (delete_tasks 1 example_db).2 =
    (inl NotFound, (delete_tasks 1 example_db).2) /\
  delete_tasks 1 (delete_tasks 1 example_db).2 =
    (inl NotFound, (delete_tasks 1 example_db).2).
Proof. apply (delete_then_not_found 1 example_db). by_evaluation. Defined.
End not_found.

(** ** Creation *)

Section create.
Implicit Types (db : list Row) (body : Body) (task : TaskCreate).

Lemma post_tasks_run body db :
  post_tasks body db =
  match TaskCreate_validate body with
  | inr task =>
      let r := mkRow (next_rowid db) (create_title task)
                     (create_description task) (create_is_completed task) in
      (inr (load r), db ++ [r])
  | inl e => (inl e, db)
  end.
Proof.
  unfold post_tasks. destruct (TaskCreate_validate body); [done|].
  apply create_task_run.
Qed.

Lemma select_new_row db r :
  rowid r = next_rowid db -> select_where_id (rowid r) (db ++ [r]) = Some r.
Proof.
  intros Hr. rewrite select_where_id_app, Hr, select_next_rowid.
  unfold select_where_id; simpl. by rewrite Hr, Z.eqb_refl.
Qed.

(** C4. When create returns a task, the task carries the id it was
    given, and get-by-id with that id right after returns the same body. *)
Theorem read_after_create body db o db' :
  post_tasks body db = (inr o, db') ->
  exists i, id o = Some i /\ get_task i db' = (inr o, db').
Proof.
  rewrite post_tasks_run.
  destruct (TaskCreate_validate body) as [e|task]; [done|].
  simpl. intros [= <- <-]. eexists. split; [done|].
  unfold get_task. rewrite read_task_run.
  by rewrite (select_new_row db (mkRow _ _ _ _)).
Qed.

Lemma read_after_create_witness :
  exists i,
    id (mkTask (Some 3) (Some "Buy milk") None (Some false)) = Some i /\
    get_task i (example_db ++ [mkRow 3 "Buy milk" None false]) =
    (inr (mkTask (Some 3) (Some "Buy milk") None (Some false)),
     example_db ++ [mkRow 3 "Buy milk" None false]).
Proof.
  apply (read_after_create (mkBody (Value "Buy milk") Absent Absent) example_db).
  reflexivity.
Defined.

(** Creating "Buy milk" on an empty database. *)
Example create_buy_milk :
  post_tasks (mkBody (Value "Buy milk") Absent Absent) [] =
  (inr (mkTask (Some 1) (Some "Buy milk") None (Some false)),
   [mkRow 1 "Buy milk" None false]).
Proof. reflexivity. Qed.



End create.

(** ** Listing *)

Section list.
Implicit Types (db : list Row) (offset limit : Z).

Lemma get_tasks_run offset limit db :
  limit <= 100 ->
  get_tasks (Some offset) (Some limit) db =
  (inr (map load (sql_limit limit (sql_offset offset db))), db).
Proof.
  intros Hl. unfold get_tasks; simpl.
  destruct (limit <=? 100) eqn:E; [|lia]. apply read_tasks_run.
Qed.

(** C5, as stated, fails: -1 is a limit at most 100, and with it the list
    has more than [limit] tasks. *)
Lemma negative_limit_is_no_limit :
  -1 <= 100 /\
  get_tasks (Some 0) (Some (-1)) example_db =
    (inr (map load example_db), example_db) /\
  ~ (Z.of_nat (length (map load example_db)) <= -1) /\
  answer (GET_tasks (Some 0) (Some (-1))) example_db =
    (tasks_response (map load example_db), example_db).
Proof. split_and!; [lia | reflexivity | simpl; lia | reflexivity]. Qed.

Lemma answer_list (offset limit : option Z) db :
  default 100 limit <= 100 ->
  int64 (default 0 offset) = true -> int64 (default 100 limit) = true ->
  answer (GET_tasks offset limit) db =
  (tasks_response
     (map load (sql_limit (default 100 limit)
                  (sql_offset (default 0 offset) db))), db).
Proof.
  intros Hl Ho Hi. unfold answer, parameters.
  destruct (default 100 limit <=? 100) eqn:E; [|lia].
  simpl. rewrite Ho, Hi. simpl. unfold respond, get_tasks.
  by rewrite E, read_tasks_run.
Qed.

(** C5, amended. For an offset from 0 up to the largest 64-bit signed
    integer and a limit from 0 to 100, the list operation returns the
    tasks of the rows from position [offset] on, at most [limit] of them,
    and leaves the table as it is.  It returns the empty list, not an
    error, when the offset is not below the row count.  The limit
    defaults to 100 and the offset to 0, and on an empty table the list
    is empty. *)
Theorem list_tasks offset limit db :
  0 <= offset < 2 ^ 63 -> 0 <= limit <= 100 ->
  exists os,
    answer (GET_tasks (Some offset) (Some limit)) db = (tasks_response os, db) /\
    os = map load (take (Z.to_nat limit) (drop (Z.to_nat offset) db)) /\
    Z.of_nat (length os) <= limit /\
    (Z.of_nat (length db) <= offset -> os = []) /\
    answer (GET_tasks (Some offset) None) db =
      answer (GET_tasks (Some offset) (Some 100)) db /\
    answer (GET_tasks None (Some limit)) db =
      answer (GET_tasks (Some 0) (Some limit)) db /\
    answer (GET_tasks (Some 0) (Some 100)) [] = (tasks_response [], []).
Proof.
  intros Ho Hl. eexists. split.
  - apply answer_list; simpl; [lia | unfold int64; lia..].
  - unfold sql_limit, sql_offset. simpl.
    destruct (limit <? 0) eqn:E; [lia|]. split_and!; try done.
    + rewrite length_map, length_take. lia.
    + intros Hlen. by rewrite drop_ge, take_nil by lia.
Qed.

Lemma list_tasks_witness :
  exists os,
    answer (GET_tasks (Some 1) (Some 1)) example_db =
      (tasks_response os, example_db) /\
    os = [mkTask (Some 2) (Some "Fix error") (Some "urgent") (Some true)].
Proof.
  destruct (list_tasks 1 1 example_db ltac:(lia) ltac:(lia))
    as (os & Hrun & Hos & _).
  exists os. split; [exact Hrun | exact Hos].
Defined.
End list.

(** ** Explicit nulls in a patch *)

Section null.
Implicit Types (db : list Row) (r : Row) (body : Body).

(** C9, as stated, fails: a null title in the body of an update is not
    written to the stored row, which keeps its title. *)
Lemma null_title_not_stored :
  select_where_id 1 example_db = Some (mkRow 1 "Buy milk" None false) /\
  patch_task 1 (mkBody Null Absent Absent) example_db =
    (inl IntegrityError, example_db).
Proof. split; reflexivity. Qed.

(** C9, amended. For an existing task id, a field the body of an update
    gives as null is not treated as absent: the dumped patch keeps every
    field the body names, null or not.  A null [description] overwrites
    the stored description with null.  [title] and [is_completed] are
    stored in columns that hold no null: when the body gives one of them
    as null the call returns no task and the stored rows are left as
    they were. *)
Theorem explicit_null task_id body db r :
  select_where_id task_id db = Some r ->
  (forall a, present a body = true ->
     given a body ∈ model_dump_exclude_unset (TaskUpdate_validate body)) /\
  (body_description body = Null -> storable body = true ->
   exists o r',
     (patch_task task_id body db).1 = inr o /\ description o = None /\
     select_where_id task_id (patch_task task_id body db).2 = Some r' /\
     row_description r' = None) /\
  (body_title body = Null \/ body_is_completed body = Null ->
   (forall o, (patch_task task_id body db).1 <> inr o) /\
   (patch_task task_id body db).2 = db).
Proof.
  intros E. split_and!.
  - rewrite model_dump_validate. intros [] Ha; simpl in Ha |- *;
      rewrite Ha, !elem_of_app, !list_elem_of_singleton; auto.
  - intros Hd Hst.
    pose proof (proj2 (to_row_patched task_id body r) Hst) as [r' Er].
    rewrite patch_task_run, E, Er; simpl.
    destruct (update_where_id_spec task_id db r r' E (to_row_rowid _ _ _ Er))
      as (Hs & _).
    assert (row_description r' = None) as Hnone.
    { rewrite model_dump_validate in Er.
      destruct body as [[| |bt] [| |bd] [| |bc]]; simpl in *; try done;
        by injection Er as <-. }
    exists (load r'), r'. by split_and!.
  - intros Hnull.
    assert (storable body = false) as Hst.
    { unfold storable. destruct Hnull as [-> | ->]; [done|].
      by destruct (body_title body). }
    rewrite patch_task_run, E.
    destruct (to_row task_id _) as [r'|] eqn:Er; [|done].
    assert (storable body = true) by (apply (to_row_patched task_id body r);
                                      rewrite Er; by eexists).
    congruence.
Qed.

Lemma explicit_null_witness :
  exists o r',
    (patch_task 2 (mkBody Absent Null Absent) example_db).1 = inr o /\
    description o = None /\
    select_where_id 2 (patch_task 2 (mkBody Absent Null Absent) example_db).2
      = Some r' /\
    row_description r' = None.
Proof.
  apply (explicit_null 2 (mkBody Absent Null Absent) example_db
           (mkRow 2 "Fix error" (Some "urgent") true) eq_refl);
    reflexivity.
Defined.
End null.

(** ** The primary key *)

Section primary_key.
Implicit Types (db : list Row) (req : Request) (r : Row).

Lemma filter_absent (i : Z) (l : list Z) :
  i ∉ l -> filter (fun j => j <> i) l = l.
Proof.
  induction l as [|j l IH]; [done|]. intros [? ?]%not_elem_of_cons.
  rewrite filter_cons_True by done. by rewrite IH.
Qed.

Lemma ids_delete task_id db :
  ids (delete_tasks task_id db).2 = filter (fun j => j <> task_id) (ids db).
Proof.
  unfold delete_tasks. rewrite delete_task_run.
  destruct (select_where_id task_id db) as [r|] eqn:E; simpl.
  - apply map_rowid_delete.
  - apply select_where_id_None in E. by rewrite filter_absent.
Qed.

Lemma ids_patch task_id body db : ids (patch_task task_id body db).2 = ids db.
Proof.
  rewrite patch_task_run.
  destruct (select_where_id task_id db) as [r|]; [|done].
  destruct (to_row task_id _); [|done]. apply map_rowid_update.
Qed.

Lemma ids_post body db :
  match (post_tasks body db).1 with
  | inr o =>
      id o = Some (next_rowid db) /\
      ids (post_tasks body db).2 = ids db ++ [next_rowid db]
  | inl _ => (post_tasks body db).2 = db
  end.
Proof.
  rewrite post_tasks_run. destruct (TaskCreate_validate body); simpl; [done|].
  split; [done|]. unfold ids. by rewrite map_app.
Qed.

Lemma get_tasks_unchanged offset limit db : (get_tasks offset limit db).2 = db.
Proof.
  unfold get_tasks. case_match; [|done]. by rewrite read_tasks_run.
Qed.

Lemma get_tasks_stored offset limit db os o :
  (get_tasks offset limit db).1 = inr os -> o ∈ os ->
  exists r, r ∈ db /\ o = load r.
Proof.
  unfold get_tasks. case_match; [|done]. rewrite read_tasks_run; simpl.
  intros [= <-] (r & -> & Hin)%list_elem_of_fmap. exists r. split; [|done].
  unfold sql_limit, sql_offset in Hin.
  case_match; [|eapply elem_of_sublist in Hin; [|apply sublist_take]];
    (eapply elem_of_sublist; [done | apply sublist_drop]).
Qed.

Lemma row_id_stored r db : r ∈ db -> rowid r ∈ ids db.
Proof. intros Hin. apply list_elem_of_fmap. by exists r. Qed.

(** The ids after a request: a create adds one id, not in use before, at
    the end; a delete removes the id it names; any other request, and
    any failed one, leaves the ids as they are. *)
Lemma ids_serve req db :
  match req with
  | POST_tasks _ =>
      ids (serve req db).2 = ids db \/
      ids (serve req db).2 = ids db ++ [next_rowid db]
  | DELETE_task task_id =>
      ids (serve req db).2 = filter (fun j => j <> task_id) (ids db)
  | _ => ids (serve req db).2 = ids db
  end.
Proof.
  destruct req as [body|offset limit|task_id|task_id body|task_id]; simpl.
  - pose proof (ids_post body db) as H.
    destruct (post_tasks body db).1; [left; by rewrite H | right; apply H].
  - by rewrite get_tasks_unchanged.
  - unfold get_task. by rewrite read_task_run.
  - apply ids_patch.
  - apply ids_delete.
Qed.

Lemma serve_unique req db : NoDup (ids db) -> NoDup (ids (serve req db).2).
Proof.
  intros Hdb. pose proof (ids_serve req db) as H.
  destruct req; try (by rewrite H).
  - destruct H as [-> | ->]; [done|].
    apply NoDup_app. split_and!; [done | | apply NoDup_singleton].
    intros i Hi ->%list_elem_of_singleton. by apply (next_rowid_fresh db).
  - rewrite H. by apply NoDup_filter.
Qed.

(** Started on an empty table, the service never holds two rows with
    the same id. *)
Corollary reachable_unique reqs : NoDup (ids (serve_all reqs [])).
Proof.
  unfold serve_all. generalize (NoDup_nil_2 (A := Z)).
  change (@nil Z) with (ids []). generalize (@nil Row).
  induction reqs as [|req reqs IH]; intros db Hdb; simpl; [done|].
  by apply IH, serve_unique.
Qed.

(** C8. On a table whose ids are unique, every request leaves them
    unique.  Every task a response carries has an id, and it is the id
    of a stored row.  A create that returns gives its task an id not in
    use, added after the ids already there; no other request adds an id
    or changes one: a delete removes the id it names and nothing else,
    and a list, a get or an update (whose body has no id) leaves the ids
    of the table exactly as they were. *)
Theorem id_unique_and_stable req db :
  NoDup (ids db) ->
  let resp := (serve req db).1 in
  let db' := (serve req db).2 in
  NoDup (ids db') /\
  (forall o, o ∈ tasks_of resp -> exists i, id o = Some i /\ i ∈ ids db') /\
  (forall body o, req = POST_tasks body -> resp = task_response o ->
     exists i, id o = Some i /\ (i ∉ ids db) /\ ids db' = ids db ++ [i]) /\
  match req with
  | POST_tasks _ => ids db' = ids db \/ ids db' = ids db ++ [next_rowid db]
  | DELETE_task task_id => ids db' = filter (fun j => j <> task_id) (ids db)
  | _ => ids db' = ids db
  end.
Proof.
  intros Hdb. split_and!;
    [by apply serve_unique | | | apply ids_serve].
  - destruct req as [body|offset limit|task_id|task_id body|task_id]; simpl.
    + pose proof (ids_post body db) as H.
      destruct (post_tasks body db).1 as [e|o']; simpl;
        [by intros ? ?%elem_of_nil|].
      intros o ->%list_elem_of_singleton. destruct H as [Ho ->].
      eexists. split; [done|]. apply elem_of_app. right. by left.
    + rewrite get_tasks_unchanged.
      destruct (get_tasks offset limit db).1 as [e|os] eqn:E; simpl;
        [by intros ? ?%elem_of_nil|].
      intros o Ho.
      destruct (get_tasks_stored offset limit db os o E Ho) as (r & Hr & ->).
      eexists. split; [done|]. by apply row_id_stored.
    + unfold get_task. rewrite read_task_run; simpl.
      destruct (select_where_id task_id db) as [r|] eqn:E; simpl;
        [|by intros ? ?%elem_of_nil].
      intros o ->%list_elem_of_singleton.
      apply select_where_id_Some in E as [Hr _].
      eexists. split; [done|]. by apply row_id_stored.
    + pose proof (ids_patch task_id body db) as Hids. fold (ids db) in Hids.
      rewrite Hids. rewrite patch_task_run.
      destruct (select_where_id task_id db) as [r|] eqn:E; simpl;
        [|by intros ? ?%elem_of_nil].
      destruct (to_row task_id _) as [r'|] eqn:Er; simpl;
        [|by intros ? ?%elem_of_nil].
      intros o ->%list_elem_of_singleton.
      eexists. split; [done|]. rewrite (to_row_rowid _ _ _ Er).
      apply select_where_id_is_Some. rewrite E. by eexists.
    + destruct (delete_tasks task_id db).1; by intros ? ?%elem_of_nil.
  - intros body o -> Ho. simpl in Ho |- *.
    pose proof (ids_post body db) as H.
    destruct (post_tasks body db).1 as [e|o']; simpl in Ho; [done|].
    injection Ho as ->. destruct H as [Hid Hids].
    exists (next_rowid db). split_and!; [done | apply next_rowid_fresh | done].
Qed.

Lemma id_unique_and_stable_witness :
  NoDup (ids (serve (POST_tasks (mkBody (Value "Buy milk") Absent Absent))
                    example_db).2) /\
  ids (serve (DELETE_task 1) example_db).2 = [2] /\
  ids (serve (PATCH_task 2 (mkBody (Value "Fix it") Absent Absent))
             example_db).2 = [1; 2].
Proof.
  split_and!.
  - apply (id_unique_and_stable
             (POST_tasks (mkBody (Value "Buy milk") Absent Absent)) example_db).
    by_evaluation.
  - apply (id_unique_and_stable (DELETE_task 1) example_db). by_evaluation.
  - apply (id_unique_and_stable
             (PATCH_task 2 (mkBody (Value "Fix it") Absent Absent)) example_db).
    by_evaluation.
Defined.
End primary_key.

(** ** The classifier *)

Section classifier.
Implicit Types (sub text kw : string).

Lemma prefix_app sub text :
  String.prefix sub text = true <-> exists b, text = sub +:+ b.
Proof.
  revert text. induction sub as [|c sub IH]; intros [|c' text]; simpl.
  - split; [intros _; by exists EmptyString | done].
  - split; [intros _; by eexists | done].
  - split; [done | by intros [? [=]]].
  - destruct (Ascii.ascii_dec c c') as [->|Hc].
    + rewrite IH. split; intros [b Hb]; exists b; [by rewrite Hb | by injection Hb].
    + split; [done | intros [b [= ? ?]]; done].
Qed.

(** [contains] is the substring test. *)
Lemma contains_substring sub text :
  contains sub text = true <-> exists a b, text = a +:+ sub +:+ b.
Proof.
  induction text as [|c text IH].
  - change (contains sub EmptyString)
      with (String.prefix sub EmptyString || false).
    rewrite orb_false_r, prefix_app. split.
    + intros [b Hb]. by exists EmptyString, b.
    + intros ([|? a] & b & Hb); [by exists b | done].
  - change (contains sub (String c text))
      with (String.prefix sub (String c text) || contains sub text).
    rewrite orb_true_iff, prefix_app, IH. split.
    + intros [[b Hb] | (a & b & Hb)].
      * by exists EmptyString, b.
      * exists (String c a), b. by rewrite Hb.
    + intros ([|c' a] & b & Hb).
      * left. by exists b.
      * right. injection Hb as _ Hb. by exists a, b.
Qed.

Lemma lower_app a b : lower (a +:+ b) = lower a +:+ lower b.
Proof. induction a as [|c a IH]; simpl; [done | by rewrite IH]. Qed.

(** Lowering is character by character, so a text splits where its
    lowering splits. *)
Lemma lower_split text x y :
  lower text = x +:+ y ->
  exists a b, text = a +:+ b /\ lower a = x /\ lower b = y.
Proof.
  revert text. induction x as [|c x IH]; intros text; simpl.
  - intros H. by exists EmptyString, text.
  - destruct text as [|c' text]; [done|]. simpl. intros [= Hc Ht].
    destruct (IH _ Ht) as (a & b & -> & Ha & Hb).
    exists (String c' a), b. simpl. by rewrite Hc, Ha.
Qed.

(** Matching in the lowered text is matching without regard to case:
    some substring of the text is the keyword once lowered. *)
Lemma contains_lower kw text :
  contains kw (lower text) = true <->
  exists a m b, text = a +:+ m +:+ b /\ lower m = kw.
Proof.
  rewrite contains_substring. split.
  - intros (x & y & H).
    apply lower_split in H as (a & t & -> & _ & H).
    apply lower_split in H as (m & b & -> & Hm & _).
    by exists a, m, b.
  - intros (a & m & b & -> & <-). exists (lower a), (lower b).
    by rewrite !lower_app.
Qed.

(** The three cases of the classifier, in priority order. *)
Lemma simple_ai_model_cases text :
  simple_ai_model text =
  if critical text then "Critical ðŸ”´"
  else if growth text then "Growth ðŸŸ¢"
  else "Neutral âšª".
Proof. reflexivity. Qed.

Example classify_urgent :
  simple_ai_model "This is urgent, system failure" = "Critical ðŸ”´".
Proof. reflexivity. Qed.

Example classify_learn : simple_ai_model "I want to learn Go" = "Growth ðŸŸ¢".
Proof. reflexivity. Qed.

Example classify_empty : simple_ai_model "" = "Neutral âšª".
Proof. reflexivity. Qed.

Example classify_priority : simple_ai_model "Buy it, URGENT" = "Critical ðŸ”´".
Proof. reflexivity. Qed.

(** C2. The classifier is total and tests the keyword sets in priority
    order on the lowered text, but the strings it returns are not the
    labels of the specification: where those end in one emoji
    character, the strings of the source end in the characters that
    emoji's UTF-8 bytes give when read in a one-byte encoding. *)
Theorem labels_are_not_the_emoji :
  simple_ai_model "This is urgent, system failure" = "Critical ðŸ”´" /\
  simple_ai_model "This is urgent, system failure" <> Critical /\
  simple_ai_model "I want to learn Go" = "Growth ðŸŸ¢" /\
  simple_ai_model "I want to learn Go" <> Growth /\
  simple_ai_model "" = "Neutral âšª" /\
  simple_ai_model "" <> Neutral /\
  (forall text,
     simple_ai_model text <> Critical /\ simple_ai_model text <> Growth /\
     simple_ai_model text <> Neutral).
Proof.
  split_and!; try reflexivity; try by_evaluation.
  intros text. rewrite simple_ai_model_cases.
  destruct (critical text), (growth text); split_and!; by_evaluation.
Qed.
End classifier.

(** ** More on listing *)

Section paging.
Implicit Types (db : list Row) (offset limit : option Z).



(** X2. Pages compose: a page of [n] tasks from [offset], followed by the
    page of [m] tasks from [offset + n], is the page of [n + m] tasks from
    [offset], as long as [offset + n] is within the 64-bit signed range. *)
Theorem list_pages_compose (o n m : Z) db :
  0 <= o -> 0 <= n -> 0 <= m -> n + m <= 100 -> o + n < 2 ^ 63 ->
  exists os1 os2,
    (answer (GET_tasks (Some o) (Some n)) db).1 = tasks_response os1 /\
    (answer (GET_tasks (Some (o + n)) (Some m)) db).1 = tasks_response os2 /\
    (answer (GET_tasks (Some o) (Some (n + m))) db).1 =
      tasks_response (os1 ++ os2).
Proof.
  intros Ho Hn Hm Hnm Hon.
  rewrite !answer_list by (simpl; unfold int64; lia).
  do 2 eexists. split_and!; try done. simpl.
  unfold sql_limit, sql_offset.
  destruct (n <? 0) eqn:E1; [lia|]. destruct (m <? 0) eqn:E2; [lia|].
  destruct (n + m <? 0) eqn:E3; [lia|].
  rewrite <- map_app. do 2 f_equal.
  rewrite !Z2Nat.inj_add by lia.
  by rewrite <- drop_drop, take_take_drop.
Qed.

Lemma list_pages_compose_witness :
  exists os1 os2,
    (answer (GET_tasks (Some 0) (Some 1)) example_db).1 = tasks_response os1 /\
    (answer (GET_tasks (Some (0 + 1)) (Some 1)) example_db).1 =
      tasks_response os2 /\
    (answer (GET_tasks (Some 0) (Some (1 + 1))) example_db).1 =
      tasks_response (os1 ++ os2).
Proof. apply (list_pages_compose 0 1 1 example_db); lia. Defined.

(** X3. With the default offset and limit, a table of at most 100 rows is
    listed whole, one task per row in the order of the table; a longer one
    is cut to its first 100 rows. *)
Theorem list_default db :
  (get_tasks None None db).1 = inr (map load (take 100 db)) /\
  ((length db <= 100)%nat -> (get_tasks None None db).1 = inr (map load db)).
Proof.
  assert ((get_tasks None None db).1 = inr (map load (take 100 db))) as H.
  { unfold get_tasks; simpl. rewrite read_tasks_run. simpl.
    unfold sql_limit, sql_offset; simpl. by rewrite drop_0. }
  split; [done|]. intros Hlen. by rewrite H, take_ge.
Qed.

Lemma list_default_witness :
  (get_tasks None None example_db).1 = inr (map load example_db).
Proof. apply (list_default example_db). simpl. lia. Defined.

(** X4. An offset that is negative, down to the smallest 64-bit signed
    integer, is taken as no offset. *)
Theorem list_negative_offset (o : Z) limit db :
  - 2 ^ 63 <= o <= 0 ->
  answer (GET_tasks (Some o) limit) db = answer (GET_tasks None limit) db.
Proof.
  intros Ho. unfold answer, parameters.
  destruct (default 100 limit <=? 100) eqn:E; simpl.
  - replace (int64 o) with true by (unfold int64; lia). simpl.
    destruct (int64 (default 100 limit)); simpl; [|done].
    unfold respond, get_tasks. simpl. rewrite E, !read_tasks_run.
    unfold sql_offset. by replace (Z.to_nat o) with (Z.to_nat 0) by lia.
  - unfold respond, get_tasks. simpl. by rewrite E.
Qed.

Lemma list_negative_offset_witness :
  answer (GET_tasks (Some (-3)) (Some 1)) example_db =
  answer (GET_tasks None (Some 1)) example_db.
Proof. apply (list_negative_offset (-3) (Some 1) example_db). lia. Defined.
End paging.

(** ** More on get-by-id and listing together *)

Section lookup.
Implicit Types (db : list Row) (r : Row).

Lemma select_where_id_unique db r :
  NoDup (ids db) -> r ∈ db -> select_where_id (rowid r) db = Some r.
Proof.
  unfold select_where_id, ids.
  induction db as [|r' db IH]; [by intros _ ?%elem_of_nil|].
  rewrite fmap_cons, NoDup_cons. intros [Hr' Hdb] Hin. simpl.
  destruct (rowid r' =? rowid r) eqn:E.
  - apply elem_of_cons in Hin as [->|Hin]; [done|].
    destruct Hr'. apply Z.eqb_eq in E. rewrite E. by apply row_id_stored.
  - apply elem_of_cons in Hin as [->|Hin]; [lia|]. by apply IH.
Qed.

(** X5. On a table with unique ids, every task the list operation returns
    is the task get-by-id returns for its id. *)
Theorem listed_task_is_readable offset limit db os o :
  NoDup (ids db) ->
  (get_tasks offset limit db).1 = inr os -> o ∈ os ->
  exists i, id o = Some i /\ get_task i db = (inr o, db).
Proof.
  intros Hdb Hos Ho.
  destruct (get_tasks_stored offset limit db os o Hos Ho) as (r & Hr & ->).
  exists (rowid r). split; [done|].
  unfold get_task. by rewrite read_task_run, select_where_id_unique.
Qed.

Lemma listed_task_is_readable_witness :
  exists i,
    id (mkTask (Some 2) (Some "Fix error") (Some "urgent") (Some true)) = Some i /\
    get_task i example_db =
    (inr (mkTask (Some 2) (Some "Fix error") (Some "urgent") (Some true)),
     example_db).
Proof.
  apply (listed_task_is_readable None None example_db (map load example_db)).
  - by_evaluation.
  - reflexivity.
  - simpl. do 2 constructor.
Defined.
End lookup.

(** ** More on creation *)

Section creation.
Implicit Types (db : list Row) (body : Body) (r : Row).

Lemma max_rowid_last db r :
  (forall r', r' ∈ db -> rowid r' < rowid r) ->
  max_rowid (db ++ [r]) = Some (rowid r).
Proof.
  induction db as [|r' db IH]; intros H; simpl; [done|].
  rewrite IH by (intros ? ?; apply H; by right).
  f_equal. specialize (H r' ltac:(left)). lia.
Qed.

Lemma delete_absent (i : Z) db : i ∉ ids db -> delete_where_id i db = db.
Proof.
  unfold delete_where_id, ids. induction db as [|r' db IH]; [done|].
  rewrite fmap_cons. intros [? ?]%not_elem_of_cons.
  rewrite filter_cons_True by done. by rewrite IH.
Qed.

Lemma delete_new_row db r :
  rowid r = next_rowid db -> delete_where_id (rowid r) (db ++ [r]) = db.
Proof.
  intros Hr. unfold delete_where_id.
  rewrite filter_app, filter_cons_False, filter_nil, app_nil_r by (by intros ?).
  apply delete_absent. rewrite Hr. apply next_rowid_fresh.
Qed.



(** X8. A create that returns gives its task an id above every id in
    the table, and every task stored before is read back as before. *)
Theorem create_keeps_stored_tasks body db o db' :
  post_tasks body db = (inr o, db') ->
  exists i, id o = Some i /\
    (forall j, j ∈ ids db -> j < i /\ (get_task j db').1 = (get_task j db).1).
Proof.
  rewrite post_tasks_run.
  destruct (TaskCreate_validate body) as [e|task]; [done|].
  simpl. intros [= <- <-]. eexists. split; [done|].
  intros j [r E]%select_where_id_is_Some.
  pose proof E as [Hr <-]%select_where_id_Some.
  split; [by apply next_rowid_above|].
  unfold get_task. by rewrite !read_task_run, select_where_id_app, E.
Qed.

Lemma create_keeps_stored_tasks_witness :
  exists i,
    id (mkTask (Some 3) (Some "Learn Rocq") None (Some false)) = Some i /\
    (forall j, j ∈ ids example_db ->
       j < i /\
       (get_task j (example_db ++ [mkRow 3 "Learn Rocq" None false])).1 =
       (get_task j example_db).1).
Proof.
  apply (create_keeps_stored_tasks
           (mkBody (Value "Learn Rocq") Null Absent) example_db).
  reflexivity.
Defined.

(** X9. Two creates in a row get consecutive ids. *)
Theorem consecutive_creates body1 body2 db o1 db1 o2 db2 :
  post_tasks body1 db = (inr o1, db1) ->
  post_tasks body2 db1 = (inr o2, db2) ->
  exists i, id o1 = Some i /\ id o2 = Some (i + 1).
Proof.
  rewrite !post_tasks_run.
  destruct (TaskCreate_validate body1) as [e|task1]; [done|].
  destruct (TaskCreate_validate body2) as [e|task2]; [done|].
  simpl. intros [= <- <-] [= <- _]. eexists. split; [done|]. simpl.
  unfold next_rowid at 1.
  by rewrite max_rowid_last by (intros ? ?; by apply next_rowid_above).
Qed.

Lemma consecutive_creates_witness :
  exists i,
    id (mkTask (Some 3) (Some "a") None (Some false)) = Some i /\
    id (mkTask (Some 4) (Some "b") None (Some false)) = Some (i + 1).
Proof.
  apply (consecutive_creates
           (mkBody (Value "a") Absent Absent) (mkBody (Value "b") Absent Absent)
           example_db _ (example_db ++ [mkRow 3 "a" None false]) _
           (example_db ++ [mkRow 3 "a" None false; mkRow 4 "b" None false]));
    reflexivity.
Defined.

(** X10. Deleting the task a create has just returned gives back the
    table as it was before the create; the id is then free again, and the
    next create returns it a second time. *)
Theorem create_then_delete body db o db' :
  post_tasks body db = (inr o, db') ->
  exists i, id o = Some i /\
    delete_tasks i db' = (inr (mkOk true), db) /\
    (forall body' o' db'', post_tasks body' db = (inr o', db'') -> id o' = Some i).
Proof.
  rewrite post_tasks_run.
  destruct (TaskCreate_validate body) as [e|task]; [done|].
  simpl. intros [= <- <-]. eexists. split_and!; [done | |].
  - unfold delete_tasks. rewrite delete_task_run.
    rewrite (select_new_row db (mkRow _ _ _ _)) by done.
    f_equal. by apply (delete_new_row db (mkRow _ _ _ _)).
  - intros body' o' db''. rewrite post_tasks_run.
    destruct (TaskCreate_validate body'); [done|]. by intros [= <- _].
Qed.

Lemma create_then_delete_witness :
  exists i,
    id (mkTask (Some 3) (Some "a") None (Some false)) = Some i /\
    delete_tasks i (example_db ++ [mkRow 3 "a" None false]) =
      (inr (mkOk true), example_db) /\
    (forall body' o' db'',
       post_tasks body' example_db = (inr o', db'') -> id o' = Some i).
Proof.
  apply (create_then_delete (mkBody (Value "a") Absent Absent) example_db).
  reflexivity.
Defined.
End creation.

(** ** More on update *)

Section patching.
Implicit Types (db : list Row) (body : Body) (r : Row).

Lemma to_row_patch_row task_id body r :
  storable body = true -> rowid r = task_id ->
  to_row task_id
    (sqlmodel_update (load r)
       (model_dump_exclude_unset (TaskUpdate_validate body)))
  = Some (patch_row body r).
Proof.
  intros Hst <-. rewrite model_dump_validate.
  by destruct body as [[| |bt] [| |bd] [| |bc]].
Qed.

Lemma patch_task_storable task_id body db :
  storable body = true ->
  patch_task task_id body db =
  match select_where_id task_id db with
  | Some r => (inr (load (patch_row body r)),
               update_where_id (patch_row body r) db)
  | None => (inl NotFound, db)
  end.
Proof.
  intros Hst. rewrite patch_task_run.
  destruct (select_where_id task_id db) as [r|] eqn:E; [|done].
  apply select_where_id_Some in E as [_ Hid].
  by rewrite to_row_patch_row.
Qed.

Lemma update_where_id_twice r1 r2 db :
  rowid r1 = rowid r2 ->
  update_where_id r2 (update_where_id r1 db) = update_where_id r2 db.
Proof.
  intros H12. unfold update_where_id. rewrite <- list_fmap_compose.
  apply list_fmap_ext. intros _ r' _. simpl. rewrite H12.
  destruct (rowid r' =? rowid r2) eqn:E; [|by rewrite E].
  by rewrite H12, Z.eqb_refl.
Qed.

Lemma update_where_id_same r db :
  NoDup (ids db) -> r ∈ db -> update_where_id r db = db.
Proof.
  unfold update_where_id, ids.
  induction db as [|r' db IH]; [done|].
  rewrite fmap_cons, NoDup_cons. intros [Hr' Hdb] Hin. simpl.
  destruct (rowid r' =? rowid r) eqn:E.
  - apply Z.eqb_eq in E.
    apply elem_of_cons in Hin as [->|Hin].
    + f_equal. clear IH. induction db as [|r'' db IH]; [done|].
      rewrite fmap_cons in Hr', Hdb.
      apply not_elem_of_cons in Hr' as [? ?]. apply NoDup_cons in Hdb as [? ?].
      simpl. destruct (rowid r'' =? rowid r') eqn:E'; [lia|].
      f_equal. by apply IH.
    + destruct Hr'. rewrite E. by apply row_id_stored.
  - f_equal. apply elem_of_cons in Hin as [->|Hin]; [lia|]. by apply IH.
Qed.

(** X11. On a table with unique ids, an update whose body names no
    attribute returns the stored task and leaves the table as it was. *)
Theorem empty_patch_changes_nothing task_id db r :
  NoDup (ids db) -> select_where_id task_id db = Some r ->
  patch_task task_id (mkBody Absent Absent Absent) db = (inr (load r), db).
Proof.
  intros Hdb E. rewrite patch_task_storable, E by done.
  pose proof E as [Hr _]%select_where_id_Some.
  replace (patch_row (mkBody Absent Absent Absent) r) with r by (by destruct r).
  by rewrite update_where_id_same.
Qed.

Lemma empty_patch_changes_nothing_witness :
  patch_task 1 (mkBody Absent Absent Absent) example_db =
  (inr (load (mkRow 1 "Buy milk" None false)), example_db).
Proof.
  apply (empty_patch_changes_nothing 1 example_db); [by_evaluation | reflexivity].
Defined.

(** X12. Update is idempotent: sent a second time, the same body gets the
    same response and leaves the table as the first update left it. *)
Theorem patch_twice task_id body db :
  patch_task task_id body (patch_task task_id body db).2 =
  patch_task task_id body db.
Proof.
  destruct (storable body) eqn:Hst.
  - rewrite !patch_task_storable by done.
    destruct (select_where_id task_id db) as [r|] eqn:E; simpl; [|by rewrite E].
    pose proof E as [_ Hid]%select_where_id_Some.
    assert (rowid (patch_row body r) = task_id) as Hid' by done.
    rewrite <- Hid' at 1. rewrite select_update_eq by (rewrite Hid', E; by eexists).
    assert (patch_row body (patch_row body r) = patch_row body r) as ->
      by (by destruct body as [[| |bt] [| |bd] [| |bc]]).
    by rewrite update_where_id_twice.
  - rewrite !patch_task_run.
    destruct (select_where_id task_id db) as [r|] eqn:E; simpl; [|by rewrite E].
    destruct (to_row task_id _) as [r'|] eqn:Er; simpl.
    + assert (storable body = true)
        by (apply (to_row_patched task_id body r); rewrite Er; by eexists).
      congruence.
    + by rewrite E, Er.
Qed.



(** X14. When an update returns a task, get-by-id on the same id right
    after returns the same task. *)
Theorem read_after_update task_id body db o db' :
  patch_task task_id body db = (inr o, db') ->
  get_task task_id db' = (inr o, db').
Proof.
  rewrite patch_task_run.
  destruct (select_where_id task_id db) as [r|] eqn:E; [|done].
  destruct (to_row task_id _) as [r'|] eqn:Er; [|done].
  intros [= <- <-]. unfold get_task. rewrite read_task_run.
  destruct (update_where_id_spec task_id db r r' E (to_row_rowid _ _ _ Er))
    as (-> & _). done.
Qed.

Lemma read_after_update_witness :
  get_task 1 [mkRow 1 "Buy milk" None true;
              mkRow 2 "Fix error" (Some "urgent") true] =
  (inr (mkTask (Some 1) (Some "Buy milk") None (Some true)),
   [mkRow 1 "Buy milk" None true; mkRow 2 "Fix error" (Some "urgent") true]).
Proof.
  apply (read_after_update 1 (mkBody Absent Absent (Value true)) example_db).
  reflexivity.
Defined.
End patching.

(** ** More on deletion *)

Section deletion.
Implicit Types (db : list Row) (r : Row).

(** X15. A delete touches the task it names and no other: get-by-id on
    any other id answers after it as before, and no list taken after it
    holds a task with the deleted id. *)
Theorem delete_removes_only_named task_id db :
  let db' := (delete_tasks task_id db).2 in
  (forall j, j <> task_id -> (get_task j db').1 = (get_task j db).1) /\
  ((delete_tasks task_id db).1 = inr (mkOk true) ->
   forall offset limit os o,
     (get_tasks offset limit db').1 = inr os -> o ∈ os -> id o <> Some task_id).
Proof.
  unfold delete_tasks. rewrite delete_task_run. split.
  - intros j Hj. unfold get_task. rewrite !read_task_run.
    destruct (select_where_id task_id db); simpl; [|done].
    by rewrite select_delete_ne.
  - destruct (select_where_id task_id db) as [r|] eqn:E; simpl; [|done].
    intros _ offset limit os o Hos Ho.
    destruct (get_tasks_stored _ _ _ _ _ Hos Ho) as (r' & Hr' & ->).
    unfold delete_where_id in Hr'. apply list_elem_of_filter in Hr' as [Hne _].
    simpl. congruence.
Qed.

Lemma delete_removes_only_named_witness :
  (get_task 2 (delete_tasks 1 example_db).2).1 = (get_task 2 example_db).1.
Proof. apply (delete_removes_only_named 1 example_db). lia. Defined.

Lemma length_filter_ne (i : Z) (l : list Z) :
  NoDup l -> i ∈ l -> S (length (filter (fun j => j <> i) l)) = length l.
Proof.
  induction l as [|j l IH]; [by intros _ ?%elem_of_nil|].
  intros [Hj Hl]%NoDup_cons Hin. destruct (decide (j = i)) as [->|Hne].
  - rewrite filter_cons_False by (by intros ?).
    by rewrite filter_absent.
  - rewrite filter_cons_True by done. simpl. f_equal. apply IH; [done|].
    by apply elem_of_cons in Hin as [->|?].
Qed.

(** X16. On a table with unique ids, a delete that succeeds removes
    exactly one row. *)
Theorem delete_removes_one_row task_id db :
  NoDup (ids db) -> (delete_tasks task_id db).1 = inr (mkOk true) ->
  S (length (delete_tasks task_id db).2) = length db.
Proof.
  intros Hdb Hok.
  rewrite <- (length_map rowid (delete_tasks task_id db).2).
  fold (ids (delete_tasks task_id db).2). rewrite ids_delete.
  rewrite length_filter_ne; [by unfold ids; rewrite length_map | done |].
  apply select_where_id_is_Some.
  unfold delete_tasks in Hok. rewrite delete_task_run in Hok.
  destruct (select_where_id task_id db); [by eexists | done].
Qed.

Lemma delete_removes_one_row_witness :
  S (length (delete_tasks 2 example_db).2) = length example_db.
Proof.
  apply (delete_removes_one_row 2 example_db); [by_evaluation | reflexivity].
Defined.
End deletion.

(** ** The service as a whole *)

Section service.
Implicit Types (db : list Row) (req : Request).

(** X17. A request that is answered with an error, whichever it is,
    leaves the table as it was; so does every list and get-by-id. *)
Theorem failed_request_changes_nothing req db :
  (forall e, (serve req db).1 = error_response e -> (serve req db).2 = db) /\
  (forall offset limit, (serve (GET_tasks offset limit) db).2 = db) /\
  (forall task_id, (serve (GET_task task_id) db).2 = db).
Proof.
  split_and!.
  - destruct req as [body|offset limit|task_id|task_id body|task_id]; simpl.
    + rewrite post_tasks_run. by destruct (TaskCreate_validate body).
    + by rewrite get_tasks_unchanged.
    + unfold get_task. by rewrite read_task_run.
    + rewrite patch_task_run.
      destruct (select_where_id task_id db); [|done].
      by destruct (to_row task_id _).
    + unfold delete_tasks. rewrite delete_task_run.
      by destruct (select_where_id task_id db).
  - intros. simpl. apply get_tasks_unchanged.
  - intros. simpl. unfold get_task. by rewrite read_task_run.
Qed.

Lemma failed_request_changes_nothing_witness :
  (serve (PATCH_task 1 (mkBody Null (Value "x") (Value true))) example_db).2
  = example_db.
Proof.
  apply (failed_request_changes_nothing
           (PATCH_task 1 (mkBody Null (Value "x") (Value true))) example_db)
    with (e := IntegrityError).
  reflexivity.
Defined.

Lemma Forall_sub {A} (P : A -> Prop) (l1 l2 : list A) :
  l1 `sublist_of` l2 -> Forall P l2 -> Forall P l1.
Proof.
  rewrite !Forall_forall. intros Hsub H x Hx. apply H.
  by eapply elem_of_sublist.
Qed.

Lemma sorted_sub (l1 l2 : list Z) :
  l1 `sublist_of` l2 -> StronglySorted Z.lt l2 -> StronglySorted Z.lt l1.
Proof.
  induction 1 as [|x l1 l2 Hsub IH|x l1 l2 Hsub IH]; [done| |].
  - intros [Hs Hx]%StronglySorted_inv. constructor; [by apply IH|].
    by eapply Forall_sub.
  - intros [Hs _]%StronglySorted_inv. by apply IH.
Qed.

Lemma filter_sub {A} (P : A -> Prop) `{!forall x, Decision (P x)} (l : list A) :
  filter P l `sublist_of` l.
Proof.
  induction l as [|x l IH]; [done|].
  rewrite filter_cons. case_decide; by constructor.
Qed.

Lemma next_rowid_positive db :
  Forall (fun i => 1 <= i) (ids db) -> 1 <= next_rowid db.
Proof.
  unfold next_rowid. destruct db as [|r db]; simpl; [done|].
  intros [? _]%Forall_cons. destruct (max_rowid db); lia.
Qed.

Lemma serve_ascending req db :
  ascending db /\ Forall (fun i => 1 <= i) (ids db) ->
  ascending (serve req db).2 /\ Forall (fun i => 1 <= i) (ids (serve req db).2).
Proof.
  unfold ascending. intros [Hs Hp]. pose proof (ids_serve req db) as H.
  destruct req; try (by rewrite H).
  - destruct H as [-> | ->]; [done|]. split.
    + apply StronglySorted_app_2; [|done|repeat constructor].
      intros x1 x2 (r & -> & Hr)%list_elem_of_fmap ->%list_elem_of_singleton.
      by apply next_rowid_above.
    + apply Forall_app. split; [done|].
      apply Forall_singleton. by apply next_rowid_positive.
  - rewrite H. split.
    + eapply sorted_sub; [apply filter_sub | done].
    + eapply Forall_sub; [apply filter_sub | done].
Qed.

(** X18. On a table whose ids are positive and ascend in table order,
    every sequence of requests leaves them so, and every list taken
    afterwards has its tasks in ascending order of id.  The empty table
    the service starts on is of that kind. *)
Theorem ids_ascend reqs db :
  ascending db -> Forall (fun i => 1 <= i) (ids db) ->
  ascending (serve_all reqs db) /\
  Forall (fun i => 1 <= i) (ids (serve_all reqs db)) /\
  (forall offset limit os,
     (get_tasks offset limit (serve_all reqs db)).1 = inr os ->
     exists js, map id os = map Some js /\ StronglySorted Z.lt js).
Proof.
  intros Hs Hp.
  assert (ascending (serve_all reqs db) /\
          Forall (fun i => 1 <= i) (ids (serve_all reqs db))) as [Hs' Hp'].
  { unfold serve_all. revert db Hs Hp.
    induction reqs as [|req reqs IH]; intros db Hs Hp; simpl; [done|].
    destruct (serve_ascending req db (conj Hs Hp)). by apply IH. }
  split_and!; [done | done |].
  intros offset limit os. unfold get_tasks. case_match; [|done].
  rewrite read_tasks_run. simpl. intros [= <-].
  exists (ids (sql_limit (default 100 limit)
                 (sql_offset (default 0 offset) (serve_all reqs db)))).
  split.
  - unfold ids. rewrite <- !list_fmap_compose. by apply list_fmap_ext.
  - eapply sorted_sub; [|exact Hs']. unfold ids. apply fmap_sublist.
    unfold sql_limit, sql_offset. case_match.
    + apply sublist_drop.
    + etrans; [apply sublist_take | apply sublist_drop].
Qed.

Lemma ids_ascend_witness :
  ascending (serve_all [POST_tasks (mkBody (Value "a") Absent Absent);
                        POST_tasks (mkBody (Value "b") Absent Absent);
                        DELETE_task 1;
                        POST_tasks (mkBody (Value "c") Absent Absent)] []).
Proof. apply ids_ascend; constructor. Defined.
End service.

(** ** More on the classifier *)

Section labels.
Implicit Types (text a b : string).

Lemma critical_has_keyword text :
  critical text = true <-> has_keyword ["urgent"; "fail"; "error"] text.
Proof.
  unfold critical, has_keyword. rewrite !orb_true_iff, !contains_lower. split.
  - intros [[(a & m & b & ? & ?) | (a & m & b & ? & ?)] | (a & m & b & ? & ?)];
      exists a, m, b; (split; [done|]); subst; rewrite !elem_of_cons; auto.
  - intros (a & m & b & ? & Hm). rewrite !elem_of_cons in Hm.
    destruct Hm as [?|[?|[?|?%elem_of_nil]]]; [left; left | left; right | right | done];
      by exists a, m, b.
Qed.

Lemma growth_has_keyword text :
  growth text = true <-> has_keyword ["learn"; "buy"] text.
Proof.
  unfold growth, has_keyword. rewrite !orb_true_iff, !contains_lower. split.
  - intros [(a & m & b & ? & ?) | (a & m & b & ? & ?)];
      exists a, m, b; (split; [done|]); subst; rewrite !elem_of_cons; auto.
  - intros (a & m & b & ? & Hm). rewrite !elem_of_cons in Hm.
    destruct Hm as [?|[?|?%elem_of_nil]]; [left | right | done];
      by exists a, m, b.
Qed.

Lemma label_by_keywords_aux text :
  (simple_ai_model text = "Critical ðŸ”´" <->
   has_keyword ["urgent"; "fail"; "error"] text) /\
  (simple_ai_model text = "Growth ðŸŸ¢" <->
   ~ has_keyword ["urgent"; "fail"; "error"] text /\
   has_keyword ["learn"; "buy"] text) /\
  (simple_ai_model text = "Neutral âšª" <->
   ~ has_keyword ["urgent"; "fail"; "error"] text /\
   ~ has_keyword ["learn"; "buy"] text).
Proof.
  rewrite <- critical_has_keyword, <- growth_has_keyword, simple_ai_model_cases.
  destruct (critical text), (growth text); split_and!;
    (split; [intros H; try done; by apply (bool_decide_pack _) in H
            | intros H; try done; try (by destruct H as [[] _]);
              try (by destruct H as [_ []]); by destruct H]).
Qed.

(** X19. The label is decided by substrings, whatever the case of their
    letters: the first label exactly when the text holds "urgent", "fail"
    or "error"; the second exactly when it holds none of these but
    "learn" or "buy"; the third exactly when it holds none of the five. *)
Theorem label_by_keywords text :
  (simple_ai_model text = "Critical ðŸ”´" <->
   has_keyword ["urgent"; "fail"; "error"] text) /\
  (simple_ai_model text = "Growth ðŸŸ¢" <->
   ~ has_keyword ["urgent"; "fail"; "error"] text /\
   has_keyword ["learn"; "buy"] text) /\
  (simple_ai_model text = "Neutral âšª" <->
   ~ has_keyword ["urgent"; "fail"; "error"] text /\
   ~ has_keyword ["learn"; "buy"] text).
Proof. apply label_by_keywords_aux. Qed.

Lemma lower_ascii_idemp c : lower_ascii (lower_ascii c) = lower_ascii c.
Proof. by destruct c as [[] [] [] [] [] [] [] []]. Qed.

Lemma lower_idemp text : lower (lower text) = lower text.
Proof.
  induction text as [|c text IH]; simpl; [done|].
  by rewrite lower_ascii_idemp, IH.
Qed.

(** X20. The label does not depend on the case of the letters A to Z:
    two texts with the same lowering get the same label, and so a text
    and its lowering do. *)
Theorem label_ignores_case text :
  simple_ai_model (lower text) = simple_ai_model text /\
  (forall text', lower text' = lower text ->
     simple_ai_model text' = simple_ai_model text).
Proof.
  split.
  - unfold simple_ai_model. by rewrite lower_idemp.
  - intros text' H. unfold simple_ai_model. by rewrite H.
Qed.

Lemma string_app_assoc a b (c : string) : (a +:+ b) +:+ c = a +:+ b +:+ c.
Proof. induction a as [|x a IH]; [done|]. exact (f_equal (String x) IH). Qed.

Lemma has_keyword_app kws a text b :
  has_keyword kws text -> has_keyword kws (a +:+ text +:+ b).
Proof.
  intros (x & m & y & -> & Hm). exists (a +:+ x), m, (y +:+ b).
  split; [|done]. by rewrite !string_app_assoc.
Qed.

(** X21. Text around a text never lowers its class: a text of the first
    label keeps it inside any longer text, and a text of the second label
    gets the second or the first there, never the third. *)
Theorem label_of_longer_text a text b :
  (simple_ai_model text = "Critical ðŸ”´" ->
   simple_ai_model (a +:+ text +:+ b) = "Critical ðŸ”´") /\
  (simple_ai_model text = "Growth ðŸŸ¢" ->
   simple_ai_model (a +:+ text +:+ b) <> "Neutral âšª").
Proof.
  pose proof (label_by_keywords_aux text) as (H0 & H1 & _).
  pose proof (label_by_keywords_aux (a +:+ text +:+ b)) as (H0' & _ & H2').
  split.
  - intros H. apply H0'. by apply has_keyword_app, H0.
  - intros H [_ Hn]%H2'. apply Hn. by apply has_keyword_app, H1.
Qed.

Lemma label_of_longer_text_witness :
  simple_ai_model ("Disk " +:+ "FAIL" +:+ "ure, buy a new one") = "Critical ðŸ”´".
Proof.
  apply (label_of_longer_text "Disk " "FAIL" "ure, buy a new one").
  reflexivity.
Defined.

(** X22. The analysis echoes the description as it was sent, letter case
    included, and its sentiment is one of three strings that differ from
    one another, so that it tells the class. *)
Theorem analysis_echoes_and_labels description :
  analysis_description (analyze_task_sentiment description) = description /\
  predicted_sentiment (analyze_task_sentiment description)
    ∈ ["Critical ðŸ”´"; "Growth ðŸŸ¢"; "Neutral âšª"] /\
  NoDup ["Critical ðŸ”´"; "Growth ðŸŸ¢"; "Neutral âšª"].
Proof.
  split_and!; [done | | by_evaluation].
  unfold analyze_task_sentiment. simpl. rewrite simple_ai_model_cases.
  destruct (critical description), (growth description);
    rewrite !elem_of_cons; auto.
Qed.
End labels.
